(** * scripts/list_collections.py: listing the custom collections

    A shallow embedding of the script and the properties of its
    observable behaviour: the file it opens, the HTTP request it issues
    and what it writes to standard output.

    The script is a module body without functions.  Its three commented
    parts ("Read token", "Get collections", "List non-system
    collections") are embedded one by one and sequenced by [main]. *)

From Stdlib Require Import String Ascii List NArith ZArith Bool Lia.
From Stdlib Require Import DecimalString.
Import ListNotations.

(** ** Text

    A Python [str] is a sequence of Unicode code points.  A code point
    is a natural number; literals of the script are written with [lit]. *)

Definition char := N.
Definition text := list char.

Definition lit (s : string) : text :=
  map N_of_ascii (list_ascii_of_string s).
Arguments lit s%_string.

(** The line feed that [print] appends. *)
Definition nl : text := [10%N].

Definition char_eqb (a b : char) : bool := N.eqb a b.

Fixpoint text_eqb (s t : text) : bool :=
  match s, t with
  | [], [] => true
  | a :: s', b :: t' => char_eqb a b && text_eqb s' t'
  | _, _ => false
  end.

(** [str.isspace] on one code point, the test [str.strip()] applies. *)
Definition isspace (c : char) : bool :=
  ((9 <=? c) && (c <=? 13) || (28 <=? c) && (c <=? 32)
   || (c =? 133) || (c =? 160) || (c =? 5760)
   || (8192 <=? c) && (c <=? 8202)
   || (c =? 8232) || (c =? 8233) || (c =? 8239) || (c =? 8287)
   || (c =? 12288))%N.

Fixpoint lstrip (s : text) : text :=
  match s with
  | [] => []
  | c :: s' => if isspace c then lstrip s' else s
  end.

Definition rstrip (s : text) : text := rev (lstrip (rev s)).

(** [s.strip()] *)
Definition strip (s : text) : text := rstrip (lstrip s).

(** [s.startswith(p)] *)
Fixpoint startswith (s p : text) : bool :=
  match p, s with
  | [], _ => true
  | _ :: _, [] => false
  | b :: p', a :: s' => char_eqb a b && startswith s' p'
  end.

(** What standard output takes.  It is a text stream in UTF-8 with
    strict error handling, the default of Python 3 on the systems the
    shebang line addresses: every code point is encoded but the
    surrogates, [U+D800] to [U+DFFF], which the JSON decoder does hand
    out when the body holds an unpaired surrogate escape. *)
Definition is_surrogate (c : char) : bool :=
  ((55296 <=? c) && (c <=? 57343))%N.

Definition encodable (s : text) : bool :=
  forallb (fun c => negb (is_surrogate c)) s.

(** Decimal rendering of a length, as an f-string renders an [int]. *)
Definition dec (n : nat) : text :=
  lit (NilEmpty.string_of_uint (Nat.to_uint n)).

(** ** Values

    What [response.json()] can return.  An object is the [dict] built by
    the decoder, kept as its bindings in insertion order; a float is
    kept as the text [repr] gives for it, its only use in the script
    being to be formatted. *)

#[local] Unset Elimination Schemes.
Inductive json : Type :=
| JNull
| JBool (b : bool)
| JInt (z : Z)
| JFloat (shown : text)
| JStr (s : text)
| JArr (elems : list json)
| JObj (fields : list (text * json)).
#[local] Set Elimination Schemes.

Fixpoint assoc (fields : list (text * json)) (key : text) : option json :=
  match fields with
  | [] => None
  | (k, v) :: rest => if text_eqb k key then Some v else assoc rest key
  end.

(** ** Failures *)

Inductive file_error := NotFound | OpenDenied | ReadFailed.

Inductive exn :=
| FileError (c : file_error)      (* OSError and decoding errors of the token file *)
| NetworkError                    (* whatever [requests.get] raises *)
| JSONDecodeError                 (* [response.json()] on a body that is not JSON *)
| KeyError (key : text)
| TypeError
| AttributeError
| UnicodeEncodeError.             (* [print] of text standard output cannot encode *)

(** ** The outside world *)

Inductive file_state :=
| OpenFails (c : file_error)
| ReadFails (c : file_error)
| Contents (s : text).

Record request := { url : text; headers : list (text * text) }.

Record response := { status_code : Z; body_json : option json }.

Inductive http_result :=
| NetFails
| Resp (r : response).

(** [str_of] is the built-in [str] on the values that are not strings:
    an f-string field formats a string as itself and anything else
    through it. *)
Record env := {
  files : text -> file_state;
  server : request -> http_result;
  str_of : json -> text
}.

(** ** Effects

    A run is the trace of what it did to the outside world, in order,
    together with its result: an uncaught exception or a value. *)

Inductive event :=
| Open (path : text)
| Read (path : text)
| Close (path : text)
| HttpGet (rq : request)
| Stdout (s : text).

Definition M (A : Type) : Type := list event * (exn + A).

Definition ret {A} (a : A) : M A := ([], inr a).
Definition raise {A} (e : exn) : M A := ([], inl e).
Definition emit (ev : event) : M unit := ([ev], inr tt).

Definition bind {A B} (m : M A) (f : A -> M B) : M B :=
  match m with
  | (t, inl e) => (t, inl e)
  | (t, inr a) => let (t', r) := f a in (t ++ t', r)
  end.

Notation "x <- m ;; k" := (bind m (fun x => k))
  (at level 61, m at next level, right associativity).
Notation "m ;;; k" := (bind m (fun _ => k))
  (at level 61, right associativity).

Definition trace {A} (m : M A) : list event := fst m.
Definition outcome {A} (m : M A) : exn + A := snd m.

(** What standard output holds at the end of a run. *)
Fixpoint stdout_of (t : list event) : text :=
  match t with
  | [] => []
  | Stdout s :: t' => s ++ stdout_of t'
  | _ :: t' => stdout_of t'
  end.

Definition stdout {A} (m : M A) : text := stdout_of (trace m).

(** The requests a run handed to [requests.get]. *)
Fixpoint gets_of (t : list event) : list request :=
  match t with
  | [] => []
  | HttpGet rq :: t' => rq :: gets_of t'
  | _ :: t' => gets_of t'
  end.

(** ** Primitives *)

Section Primitives.
Variable w : env.

(** [f.read()] *)
Definition read (f : text) : M text :=
  emit (Read f) ;;;
  match files w f with
  | Contents s => ret s
  | ReadFails c => raise (FileError c)
  | OpenFails c => raise (FileError c)
  end.

(** [with open(path, 'r') as f: body]: when [open] succeeds the handle
    is closed on the way out of the body, however the body ends. *)
Definition with_open {A} (path : text) (body : text -> M A) : M A :=
  emit (Open path) ;;;
  match files w path with
  | OpenFails c => raise (FileError c)
  | _ => let (t, r) := body path in (t ++ [Close path], r)
  end.

(** [requests.get(url, headers=...)] *)
Definition requests_get (u : text) (hs : list (text * text)) : M response :=
  let rq := {| url := u; headers := hs |} in
  emit (HttpGet rq) ;;;
  match server w rq with
  | NetFails => raise NetworkError
  | Resp r => ret r
  end.

(** [response.json()] *)
Definition response_json (r : response) : M json :=
  match body_json r with
  | Some d => ret d
  | None => raise JSONDecodeError
  end.

(** [print(s)]: [s] and a line feed are written to standard output.
    The stream encodes [s] as a whole before it takes any of it, so when
    [s] cannot be encoded nothing of it is written. *)
Definition print (s : text) : M unit :=
  if encodable s then emit (Stdout (s ++ nl)) else raise UnicodeEncodeError.

(** [v[key]] with a string key *)
Definition getitem (v : json) (key : text) : M json :=
  match v with
  | JObj fields =>
      match assoc fields key with
      | Some x => ret x
      | None => raise (KeyError key)
      end
  | _ => raise TypeError
  end.

(** The values a [for] loop or a comprehension draws from [v]. *)
Definition iter (v : json) : M (list json) :=
  match v with
  | JArr elems => ret elems
  | JObj fields => ret (map (fun kv => JStr (fst kv)) fields)
  | JStr s => ret (map (fun c => JStr [c]) s)
  | _ => raise TypeError
  end.

(** [v.startswith(p)]: a method of strings only *)
Definition startswith_method (v : json) (p : text) : M bool :=
  match v with
  | JStr s => ret (startswith s p)
  | _ => raise AttributeError
  end.

(** A replacement field [{v}] of an f-string. *)
Definition fmt (v : json) : text :=
  match v with
  | JStr s => s
  | _ => str_of w v
  end.

(** [for x in xs: body] *)
Fixpoint for_each {A} (xs : list A) (body : A -> M unit) : M unit :=
  match xs with
  | [] => ret tt
  | x :: xs' => body x ;;; for_each xs' body
  end.

(** [[x for x in xs if cond]] *)
Fixpoint comprehension {A} (xs : list A) (cond : A -> M bool) : M (list A) :=
  match xs with
  | [] => ret []
  | x :: xs' =>
      b <- cond x ;;
      rest <- comprehension xs' cond ;;
      ret (if b then x :: rest else rest)
  end.

(** ** The script *)

Definition token_path : text := lit "/tmp/pb_token.txt".

Definition collections_url : text :=
  lit "http://localhost:8090/api/collections?perPage=100".

(** [# Read token] *)
Definition read_token : M text :=
  with_open token_path (fun f => s <- read f ;; ret (strip s)).

(** [# Get collections] *)
Definition get_collections (token : text) : M response :=
  requests_get collections_url [(lit "Authorization", token)].

(** [not c['name'].startswith('_')] *)
Definition is_custom (c : json) : M bool :=
  name <- getitem c (lit "name") ;;
  b <- startswith_method name (lit "_") ;;
  ret (negb b).

(** The body of the [for] loop. *)
Definition loop_body (c : json) : M unit :=
  keep <- is_custom c ;;
  if keep then
    name <- getitem c (lit "name") ;;
    id <- getitem c (lit "id") ;;
    print (lit "  " ++ fmt name ++ lit ": " ++ fmt id)
  else ret tt.

(** [# List non-system collections] *)
Definition list_collections (data : json) : M unit :=
  print (lit "Custom collections:") ;;;
  items <- getitem data (lit "items") ;;
  cs <- iter items ;;
  for_each cs loop_body ;;;
  items' <- getitem data (lit "items") ;;
  cs' <- iter items' ;;
  kept <- comprehension cs' is_custom ;;
  print (nl ++ lit "Total: " ++ dec (length kept)
            ++ lit " custom collections").

Definition main : M unit :=
  token <- read_token ;;
  response <- get_collections token ;;
  data <- response_json response ;;
  list_collections data.

End Primitives.

(** * Reading of the behaviour *)

(** ** Up to the parsed response

    The request the script sends for a given token, the events of a run
    that reaches [list_collections], and when a run does. *)

Definition auth_request (token : text) : request :=
  {| url := collections_url; headers := [(lit "Authorization", token)] |}.

Definition prelude (content : text) : list event :=
  [Open token_path; Read token_path; Close token_path;
   HttpGet (auth_request (strip content))].

Definition responds (w : env) (content : text) (data : json) : Prop :=
  files w token_path = Contents content /\
  exists r, server w (auth_request (strip content)) = Resp r /\
            body_json r = Some data.

(** ** Collection records

    The reading the report is checked against: a record is an object
    whose [name] and [id] are strings, it is a system record when its
    name begins with an underscore and a custom one otherwise, and a
    custom record is reported on one line. *)

Definition str_field (key : text) (c : json) : option text :=
  match c with
  | JObj fields =>
      match assoc fields key with
      | Some (JStr s) => Some s
      | _ => None
      end
  | _ => None
  end.

Definition record_name (c : json) : option text := str_field (lit "name") c.
Definition record_id (c : json) : option text := str_field (lit "id") c.

Definition is_record (c : json) : bool :=
  match record_name c, record_id c with
  | Some _, Some _ => true
  | _, _ => false
  end.

Definition system_record (c : json) : bool :=
  match record_name c with
  | Some n => startswith n (lit "_")
  | None => false
  end.

Definition custom_record (c : json) : bool :=
  match record_name c with
  | Some n => negb (startswith n (lit "_"))
  | None => false
  end.

Definition text_or_empty (o : option text) : text :=
  match o with Some s => s | None => [] end.

Definition record_line (c : json) : text :=
  lit "  " ++ text_or_empty (record_name c) ++ lit ": "
         ++ text_or_empty (record_id c).

Definition header_line : text := lit "Custom collections:".

Definition total_line (count : nat) : text :=
  nl ++ lit "Total: " ++ dec count ++ lit " custom collections".

(** What one [print] call writes. *)
Definition printed (line : text) : event := Stdout (line ++ nl).

(** The texts written to standard output, one per [print] call. *)
Fixpoint writes_of (t : list event) : list text :=
  match t with
  | [] => []
  | Stdout s :: t' => s :: writes_of t'
  | _ :: t' => writes_of t'
  end.

(** The file operations of a run. *)
Definition is_file_event (ev : event) : bool :=
  match ev with
  | Open _ | Read _ | Close _ => true
  | _ => false
  end.

Definition file_events_of (t : list event) : list event :=
  filter is_file_event t.

(** What the report may write: the header, the line of a record whose
    name does not begin with an underscore, or a total. *)
Definition report_write (s : text) : Prop :=
  s = header_line ++ nl \/
  (exists n x, startswith n (lit "_") = false /\
               s = (lit "  " ++ n ++ lit ": " ++ x) ++ nl) \/
  (exists count, s = total_line count ++ nl).

Definition report_event (ev : event) : Prop :=
  match ev with
  | Stdout s => report_write s
  | _ => False
  end.

(** ** Lines of the output

    Standard output cut at its line feeds, the shape of the line of a
    record, two spaces, a name, a colon and a space, an id, and the
    text of the total line. *)







(** The line of a record can be encoded, has no line feed in it. *)
Definition record_encodable (c : json) : bool := encodable (record_line c).


(** A parsed response without the [items] field, and the failure of
    looking it up: an object lacks the key, any other value cannot be
    subscripted with a string. *)
Definition lacks_items (data : json) : Prop :=
  match data with
  | JObj fields => assoc fields (lit "items") = None
  | _ => True
  end.

Definition items_lookup_failure (data : json) : exn :=
  match data with
  | JObj _ => KeyError (lit "items")
  | _ => TypeError
  end.

(** ** Sample inputs *)

Definition record (name id : text) : json :=
  JObj [(lit "name", JStr name); (lit "id", JStr id)].

Definition envelope (items : list json) : json :=
  JObj [(lit "items", JArr items)].

(** A world whose token file is in state [fs] and whose server answers
    every request with [rs]. *)
Definition world (fs : file_state) (rs : http_result) : env :=
  {| files := fun path =>
       if text_eqb path token_path then fs else OpenFails NotFound;
     server := fun _ => rs;
     str_of := fun _ => [] |}.

Definition answer (status : Z) (data : json) : http_result :=
  Resp {| status_code := status; body_json := Some data |}.

Definition sample_token : text := lit "  secret-token  ".

(** [items = []] *)
Definition scenario_a : env :=
  world (Contents sample_token) (answer 200 (envelope [])).

Definition superusers : json := record (lit "_superusers") (lit "sys1").
Definition posts : json := record (lit "posts") (lit "abc123").
Definition users : json := record (lit "users") (lit "def456").
Definition nameless : json := record [] (lit "xyz789").

(** A system record followed by a custom one. *)
Definition scenario_b : env :=
  world (Contents sample_token) (answer 200 (envelope [superusers; posts])).

(** The token file is absent. *)
Definition scenario_c : env :=
  world (OpenFails NotFound) (answer 200 (envelope [posts])).

(** The token file opens and cannot be read. *)
Definition scenario_unreadable : env :=
  world (ReadFails ReadFailed) (answer 200 (envelope [posts])).

(** A 404 whose JSON body has no [items]. *)
Definition error_body : json :=
  JObj [(lit "code", JInt 404); (lit "message", JStr (lit "Not found."))].

Definition scenario_d : env :=
  world (Contents sample_token) (answer 404 error_body).

(** Custom records around a system one and one with an empty name. *)
Definition scenario_mixed : env :=
  world (Contents sample_token)
        (answer 200 (envelope [posts; superusers; nameless; users])).

Definition scenario_mixed_without_system : env :=
  world (Contents sample_token)
        (answer 200 (envelope [posts; nameless; users])).

(** ** Elements the loop gets through

    What the loop and the comprehension ask of an element of [items]:
    an object whose [name] is a string and, unless that name begins with
    an underscore, has an [id], of any kind.  Anything else stops the
    run, with [record_failure]. *)

Definition field (key : text) (c : json) : option json :=
  match c with
  | JObj fields => assoc fields key
  | _ => None
  end.

Definition reportable (c : json) : bool :=
  match field (lit "name") c with
  | Some (JStr n) =>
      startswith n (lit "_")
      || match field (lit "id") c with Some _ => true | None => false end
  | _ => false
  end.

Definition record_failure (c : json) : exn :=
  match c with
  | JObj fields =>
      match assoc fields (lit "name") with
      | None => KeyError (lit "name")
      | Some (JStr _) => KeyError (lit "id")
      | Some _ => AttributeError
      end
  | _ => TypeError
  end.

(** The line of a custom element, its [id] formatted as the f-string
    does. *)
Definition report_line (w : env) (c : json) : text :=
  lit "  " ++ text_or_empty (record_name c) ++ lit ": "
         ++ match field (lit "id") c with
            | Some v => fmt w v
            | None => []
            end.

(** An element the loop gets through and whose line, if it has one,
    standard output can encode; and the failure of one that is not. *)
Definition passable (w : env) (c : json) : bool :=
  reportable c && (negb (custom_record c) || encodable (report_line w c)).

Definition element_failure (w : env) (c : json) : exn :=
  if reportable c then UnicodeEncodeError else record_failure c.

(** The elements the loop draws from the parsed response, when looking
    up [items] and iterating over it both succeed. *)
Definition items_of (data : json) : option (list json) :=
  match field (lit "items") data with
  | Some v =>
      match outcome (iter v) with
      | inr cs => Some cs
      | inl _ => None
      end
  | None => None
  end.

(** A string or an object with nothing in it. *)
Definition empty_container (v : json) : bool :=
  match v with
  | JStr [] | JObj [] => true
  | _ => false
  end.

Definition is_array (v : json) : bool :=
  match v with
  | JArr _ => true
  | _ => false
  end.

(** ** More sample inputs *)

(** [str] on the scalars: [None], [True] and [False], the decimal of
    an integer with its sign, the [repr] text of a float.  The [repr]
    of a list or of a dict is not spelled out: this sample gives the
    empty text there, and no sample input has one to format. *)
Definition str_of_scalar (v : json) : text :=
  match v with
  | JNull => lit "None"
  | JBool true => lit "True"
  | JBool false => lit "False"
  | JInt z => lit (NilZero.string_of_int (Z.to_int z))
  | JFloat shown => shown
  | JStr s => s
  | JArr _ | JObj _ => []
  end.

(** A world as [world], with [str_of_scalar] for [str]. *)
Definition world_showing_ints (fs : file_state) (rs : http_result) : env :=
  {| files := files (world fs rs);
     server := server (world fs rs);
     str_of := str_of_scalar |}.

Definition scenario_network_down : env :=
  world (Contents sample_token) NetFails.

(** A 502 whose body is not JSON. *)
Definition scenario_not_json : env :=
  world (Contents sample_token)
        (Resp {| status_code := 502; body_json := None |}).

(** [scenario_b] answered with another status. *)
Definition scenario_b_created : env :=
  world (Contents sample_token) (answer 201 (envelope [superusers; posts])).

(** A system element without [id] and a custom one whose [id] is a
    number. *)
Definition internal : json := JObj [(lit "name", JStr (lit "_internal"))].
Definition logs : json := JObj [(lit "name", JStr (lit "logs")); (lit "id", JInt 7)].

Definition scenario_loose : env :=
  world_showing_ints (Contents sample_token)
    (answer 200 (envelope [posts; internal; logs])).



Definition scenario_null_items : env :=
  world (Contents sample_token) (answer 200 (JObj [(lit "items", JNull)])).

Definition scenario_all_system : env :=
  world (Contents sample_token)
        (answer 200 (envelope [superusers; internal])).



Definition unprintable : json := record [] [55296%N].

Definition scenario_unprintable : env :=
  world (Contents sample_token)
        (answer 200 (envelope [posts; unprintable; users])).

Definition blank_token : text := lit "  " ++ nl.

Definition scenario_blank_token : env :=
  world (Contents blank_token) (answer 200 (envelope [posts])).

Definition clean_token : text := lit "secret token".

Definition scenario_clean_token : env :=
  world (Contents clean_token) (answer 200 (envelope [posts])).

(** * Properties *)

(** ** The monad *)

Lemma trace_bind {A B} (m : M A) (f : A -> M B) :
  trace (bind m f) =
  trace m ++ match outcome m with inr a => trace (f a) | inl _ => [] end.
Proof.
  destruct m as [t [e | a]]; simpl.
  - now rewrite app_nil_r.
  - now destruct (f a).
Qed.

Lemma outcome_bind {A B} (m : M A) (f : A -> M B) :
  outcome (bind m f) =
  match outcome m with inr a => outcome (f a) | inl e => inl e end.
Proof.
  destruct m as [t [e | a]]; simpl; [reflexivity | now destruct (f a)].
Qed.

Lemma bind_ret_l {A B} (a : A) (f : A -> M B) : bind (ret a) f = f a.
Proof. unfold bind, ret. now destruct (f a). Qed.

Lemma bind_emit {B} (ev : event) (k : unit -> M B) :
  bind (emit ev) k = (ev :: trace (k tt), outcome (k tt)).
Proof. unfold bind, emit. now destruct (k tt). Qed.

Lemma stdout_of_app (t u : list event) :
  stdout_of (t ++ u) = stdout_of t ++ stdout_of u.
Proof.
  induction t as [| ev t IH]; simpl; [reflexivity |].
  destruct ev; auto. now rewrite IH, app_assoc.
Qed.

Lemma gets_of_app (t u : list event) :
  gets_of (t ++ u) = gets_of t ++ gets_of u.
Proof.
  induction t as [| ev t IH]; simpl; [reflexivity |].
  destruct ev; auto. now rewrite IH.
Qed.

(** ** Up to the parsed response *)

Lemma bind_value {A B} (t : list event) (a : A) (f : A -> M B) :
  bind (t, inr a) f = (t ++ trace (f a), outcome (f a)).
Proof. unfold bind. now destruct (f a). Qed.

Lemma bind_failure {A B} (t : list event) (e : exn) (f : A -> M B) :
  bind (t, inl e) f = (t, inl e).
Proof. reflexivity. Qed.

Lemma read_token_contents (w : env) (content : text) :
  files w token_path = Contents content ->
  read_token w =
  ([Open token_path; Read token_path; Close token_path], inr (strip content)).
Proof.
  intros Hf. unfold read_token, with_open, read. now rewrite Hf.
Qed.

Lemma get_collections_resp (w : env) (token : text) (r : response) :
  server w (auth_request token) = Resp r ->
  get_collections w token = ([HttpGet (auth_request token)], inr r).
Proof.
  intros Hs. unfold get_collections, requests_get.
  fold (auth_request token). now rewrite Hs.
Qed.

Lemma main_responds (w : env) (content : text) (data : json) :
  responds w content data ->
  main w = (prelude content ++ trace (list_collections w data),
            outcome (list_collections w data)).
Proof.
  intros [Hf [r [Hs Hb]]]. unfold main.
  rewrite (read_token_contents w content Hf), bind_value.
  rewrite (get_collections_resp w _ r Hs), bind_value.
  unfold response_json. rewrite Hb, bind_ret_l.
  reflexivity.
Qed.

(** ** Printing *)

Lemma encodable_app (s t : text) :
  encodable (s ++ t) = encodable s && encodable t.
Proof. apply forallb_app. Qed.

Lemma lit_encodable (s : string) : encodable (lit s) = true.
Proof.
  unfold lit, encodable. induction s as [| a s IH]; [reflexivity |].
  cbn [list_ascii_of_string map forallb]. rewrite IH, andb_true_r.
  unfold is_surrogate. pose proof (N_ascii_bounded a) as Ha.
  destruct (N.leb_spec 55296 (N_of_ascii a)); [lia | reflexivity].
Qed.

Lemma print_encodable (s : text) :
  encodable s = true -> print s = ([printed s], inr tt).
Proof. intros H. unfold print. now rewrite H. Qed.

Lemma print_unencodable (s : text) :
  encodable s = false -> print s = raise UnicodeEncodeError.
Proof. intros H. unfold print. now rewrite H. Qed.

Lemma print_header :
  print (lit "Custom collections:") = emit (printed header_line).
Proof. reflexivity. Qed.

Lemma print_total (count : nat) :
  print (nl ++ lit "Total: " ++ dec count ++ lit " custom collections")
  = emit (printed (total_line count)).
Proof.
  apply print_encodable.
  rewrite !encodable_app. unfold dec. now rewrite !lit_encodable.
Qed.

(** ** The report *)

Lemma str_field_getitem (key : text) (c : json) (s : text) :
  str_field key c = Some s -> getitem c key = ret (JStr s).
Proof.
  unfold str_field, getitem. destruct c; try discriminate.
  destruct (assoc fields key) as [[] |]; try discriminate.
  now intros [= ->].
Qed.

Lemma is_custom_named (c : json) (n : text) :
  record_name c = Some n ->
  is_custom c = ret (negb (startswith n (lit "_"))).
Proof.
  intros Hn. unfold is_custom.
  now rewrite (str_field_getitem _ _ _ Hn), bind_ret_l.
Qed.

Lemma loop_body_system (w : env) (c : json) :
  system_record c = true -> loop_body w c = ret tt.
Proof.
  unfold system_record, loop_body.
  destruct (record_name c) as [n |] eqn:Hn; [| discriminate].
  intros Hs. now rewrite (is_custom_named _ _ Hn), bind_ret_l, Hs.
Qed.

Lemma is_custom_system (c : json) :
  system_record c = true -> is_custom c = ret false.
Proof.
  unfold system_record.
  destruct (record_name c) as [n |] eqn:Hn; [| discriminate].
  intros Hs. now rewrite (is_custom_named _ _ Hn), Hs.
Qed.

Lemma reportable_cases (c : json) :
  reportable c = true ->
  exists fields n,
    c = JObj fields /\ assoc fields (lit "name") = Some (JStr n) /\
    (startswith n (lit "_") = true \/
     startswith n (lit "_") = false /\
     exists v, assoc fields (lit "id") = Some v).
Proof.
  unfold reportable, field. destruct c; try discriminate.
  destruct (assoc fields (lit "name")) as [[] |] eqn:Hn; try discriminate.
  intros H. exists fields, s. split; [reflexivity |]. split; [exact Hn |].
  destruct (startswith s (lit "_")); [now left | right].
  split; [reflexivity |]. cbn [orb] in H.
  destruct (assoc fields (lit "id")) as [v |]; [now exists v | discriminate].
Qed.

Lemma is_custom_reportable (c : json) :
  reportable c = true -> is_custom c = ret (custom_record c).
Proof.
  intros H. destruct (reportable_cases c H) as [fields [n [-> [Hn _]]]].
  unfold is_custom, custom_record, record_name, str_field, getitem.
  now rewrite Hn, bind_ret_l.
Qed.

(** Past the filter, a custom element is printed, or is not when its
    line cannot be encoded. *)
Lemma loop_body_reportable (w : env) (c : json) :
  reportable c = true ->
  loop_body w c =
  if custom_record c then print (report_line w c) else ret tt.
Proof.
  intros H. unfold loop_body. rewrite (is_custom_reportable c H), bind_ret_l.
  destruct (reportable_cases c H) as [fields [n [-> [Hn Hid]]]].
  unfold custom_record, report_line, record_name, str_field, field, getitem.
  rewrite Hn. destruct Hid as [Hs | [Hs [v Hv]]]; rewrite Hs; cbn [negb].
  - reflexivity.
  - now rewrite Hv, !bind_ret_l.
Qed.

Lemma loop_body_unreportable (w : env) (c : json) :
  reportable c = false -> loop_body w c = raise (record_failure c).
Proof.
  unfold reportable, field, loop_body, is_custom, getitem, record_failure.
  destruct c; try reflexivity.
  destruct (assoc fields (lit "name")) as [[] |]; try reflexivity.
  rewrite bind_ret_l. unfold startswith_method. rewrite !bind_ret_l.
  destruct (startswith s (lit "_")); [discriminate |]. cbn [orb negb].
  now destruct (assoc fields (lit "id")).
Qed.

Lemma loop_body_passable (w : env) (c : json) :
  passable w c = true ->
  loop_body w c =
  (if custom_record c then [printed (report_line w c)] else [], inr tt).
Proof.
  unfold passable. intros [Hr He]%andb_prop.
  rewrite (loop_body_reportable w c Hr).
  destruct (custom_record c); [| reflexivity].
  cbn [negb orb] in He. now apply print_encodable.
Qed.

Lemma loop_body_impassable (w : env) (c : json) :
  passable w c = false -> loop_body w c = raise (element_failure w c).
Proof.
  unfold passable, element_failure. destruct (reportable c) eqn:Hr.
  - cbn [andb]. rewrite (loop_body_reportable w c Hr).
    destruct (custom_record c); [| discriminate].
    cbn [negb orb]. apply print_unencodable.
  - intros _. now apply loop_body_unreportable.
Qed.

Lemma passable_reportable (w : env) (cs : list json) :
  forallb (passable w) cs = true -> forallb reportable cs = true.
Proof.
  rewrite !forallb_forall. intros H c Hc. specialize (H c Hc).
  unfold passable in H. now apply andb_prop in H as [H _].
Qed.

Lemma for_each_passable (w : env) (cs : list json) :
  forallb (passable w) cs = true ->
  for_each cs (loop_body w) =
  (map (fun c => printed (report_line w c)) (filter custom_record cs), inr tt).
Proof.
  induction cs as [| c cs IH]; [reflexivity |].
  cbn [forallb for_each filter]. intros [Hc Hcs]%andb_prop.
  rewrite (loop_body_passable w c Hc), bind_value, (IH Hcs).
  now destruct (custom_record c).
Qed.

Lemma comprehension_reportable (cs : list json) :
  forallb reportable cs = true ->
  comprehension cs is_custom = ret (filter custom_record cs).
Proof.
  induction cs as [| c cs IH]; [reflexivity |].
  cbn [forallb comprehension filter]. intros [Hc Hcs]%andb_prop.
  rewrite (is_custom_reportable c Hc), (IH Hcs), !bind_ret_l.
  now destruct (custom_record c).
Qed.

Lemma for_each_first_failure (w : env) (pre post : list json) (bad : json) :
  forallb (passable w) pre = true ->
  passable w bad = false ->
  for_each (pre ++ bad :: post) (loop_body w) =
  (map (fun c => printed (report_line w c)) (filter custom_record pre),
   inl (element_failure w bad)).
Proof.
  intros Hpre Hbad. induction pre as [| c pre IH]; cbn [app for_each].
  - now rewrite (loop_body_impassable w bad Hbad).
  - cbn [forallb] in Hpre. apply andb_prop in Hpre as [Hc Hpre].
    rewrite (loop_body_passable w c Hc), bind_value, (IH Hpre).
    cbn [filter]. now destruct (custom_record c).
Qed.

Lemma first_failing {A} (p : A -> bool) (xs : list A) :
  forallb p xs = false ->
  exists pre bad post,
    xs = pre ++ bad :: post /\ forallb p pre = true /\ p bad = false.
Proof.
  induction xs as [| x xs IH]; [discriminate |].
  cbn [forallb]. destruct (p x) eqn:Hx.
  - cbn [andb]. intros H. destruct (IH H) as [pre [bad [post [-> [Hp Hb]]]]].
    exists (x :: pre), bad, post. cbn [forallb]. now rewrite Hx, Hp.
  - intros _. now exists [], x, xs.
Qed.

(** ** The report, case by case *)

Lemma items_of_some (data : json) (cs : list json) :
  items_of data = Some cs ->
  exists v, getitem data (lit "items") = ret v /\ iter v = ret cs.
Proof.
  unfold items_of, field, getitem. destruct data; try discriminate.
  destruct (assoc fields (lit "items")) as [v |]; [| discriminate].
  intros H. exists v. split; [reflexivity |].
  destruct v; cbn in H |- *; try discriminate; now injection H as <-.
Qed.

Lemma items_of_none (w : env) (data : json) :
  items_of data = None ->
  exists e, list_collections w data = ([printed header_line], inl e).
Proof.
  unfold items_of, field, list_collections, getitem. rewrite print_header.
  destruct data; try (intros _; eexists; reflexivity).
  destruct (assoc fields (lit "items")) as [v |];
    [| intros _; eexists; reflexivity].
  destruct v; cbn [iter outcome snd ret raise]; try discriminate;
    intros _; eexists; reflexivity.
Qed.

Lemma items_of_array (fields : list (text * json)) (cs : list json) :
  assoc fields (lit "items") = Some (JArr cs) ->
  items_of (JObj fields) = Some cs.
Proof. intros H. unfold items_of, field. now rewrite H. Qed.

Lemma list_collections_passable (w : env) (data : json) (cs : list json) :
  items_of data = Some cs ->
  forallb (passable w) cs = true ->
  list_collections w data =
  (printed header_line
     :: map (fun c => printed (report_line w c)) (filter custom_record cs)
     ++ [printed (total_line (length (filter custom_record cs)))],
   inr tt).
Proof.
  intros Hi Hcs. destruct (items_of_some data cs Hi) as [v [Hv Hit]].
  unfold list_collections.
  rewrite print_header, bind_emit, Hv, !bind_ret_l, Hit, !bind_ret_l.
  rewrite (for_each_passable w cs Hcs), bind_value.
  rewrite (comprehension_reportable cs (passable_reportable w cs Hcs)).
  rewrite bind_ret_l, print_total. reflexivity.
Qed.

Lemma list_collections_first_failure (w : env) (data : json)
    (pre post : list json) (bad : json) :
  items_of data = Some (pre ++ bad :: post) ->
  forallb (passable w) pre = true ->
  passable w bad = false ->
  list_collections w data =
  (printed header_line
     :: map (fun c => printed (report_line w c)) (filter custom_record pre),
   inl (element_failure w bad)).
Proof.
  intros Hi Hpre Hbad. destruct (items_of_some data _ Hi) as [v [Hv Hit]].
  unfold list_collections.
  rewrite print_header, bind_emit, Hv, !bind_ret_l, Hit, !bind_ret_l.
  rewrite (for_each_first_failure w pre post bad Hpre Hbad), bind_failure.
  reflexivity.
Qed.

(** ** The report on records *)

Lemma is_record_reportable (w : env) (c : json) :
  is_record c = true ->
  reportable c = true /\ report_line w c = record_line c.
Proof.
  unfold is_record, reportable, report_line, record_line, record_name,
    record_id, str_field, field.
  destruct c; try discriminate.
  destruct (assoc fields (lit "name")) as [[] |]; try discriminate.
  destruct (assoc fields (lit "id")) as [[] |]; try discriminate.
  intros _. split; [apply orb_true_r | reflexivity].
Qed.

Lemma is_record_passable (w : env) (c : json) :
  is_record c = true ->
  passable w c = negb (custom_record c) || record_encodable c.
Proof.
  intros H. destruct (is_record_reportable w c H) as [Hr Hl].
  unfold passable, record_encodable. now rewrite Hr, Hl.
Qed.

Lemma records_passable (w : env) (cs : list json) :
  forallb is_record cs = true ->
  forallb record_encodable (filter custom_record cs) = true ->
  forallb (passable w) cs = true.
Proof.
  induction cs as [| c cs IH]; [reflexivity |].
  cbn [forallb filter]. intros [Hc Hcs]%andb_prop.
  rewrite (is_record_passable w c Hc).
  destruct (custom_record c); cbn [negb orb forallb].
  - intros [-> He]%andb_prop. exact (IH Hcs He).
  - exact (IH Hcs).
Qed.

Lemma record_lines_map (w : env) (cs : list json) :
  forallb is_record cs = true ->
  map (fun c => printed (report_line w c)) (filter custom_record cs)
  = map (fun c => printed (record_line c)) (filter custom_record cs).
Proof.
  intros H. apply map_ext_in. intros c [Hc _]%filter_In.
  rewrite forallb_forall in H.
  now destruct (is_record_reportable w c (H c Hc)) as [_ ->].
Qed.

Lemma forallb_app_l {A} (p : A -> bool) (xs ys : list A) :
  forallb p (xs ++ ys) = true -> forallb p xs = true.
Proof. rewrite forallb_app. now intros [H _]%andb_prop. Qed.

(** The whole run on records whose lines can all be encoded. *)
Lemma main_records (w : env) (content : text) (fields : list (text * json))
    (cs : list json) :
  responds w content (JObj fields) ->
  assoc fields (lit "items") = Some (JArr cs) ->
  forallb is_record cs = true ->
  forallb record_encodable (filter custom_record cs) = true ->
  main w =
  (prelude content
     ++ printed header_line
     :: map (fun c => printed (record_line c)) (filter custom_record cs)
     ++ [printed (total_line (length (filter custom_record cs)))],
   inr tt).
Proof.
  intros Hr Hi Hcs He.
  rewrite (main_responds w content _ Hr).
  rewrite (list_collections_passable w _ cs (items_of_array fields cs Hi)
             (records_passable w cs Hcs He)).
  now rewrite (record_lines_map w cs Hcs).
Qed.

(** The run that stops at a record whose line cannot be encoded. *)
Lemma main_records_stopped (w : env) (content : text)
    (fields : list (text * json)) (pre post : list json) (bad : json) :
  responds w content (JObj fields) ->
  assoc fields (lit "items") = Some (JArr (pre ++ bad :: post)) ->
  forallb is_record (pre ++ bad :: post) = true ->
  forallb record_encodable (filter custom_record pre) = true ->
  custom_record bad = true ->
  record_encodable bad = false ->
  main w =
  (prelude content
     ++ printed header_line
     :: map (fun c => printed (record_line c)) (filter custom_record pre),
   inl UnicodeEncodeError).
Proof.
  intros Hr Hi Hcs He Hc Hb.
  pose proof (forallb_app_l is_record pre _ Hcs) as Hpre.
  assert (Hbad : is_record bad = true).
  { rewrite forallb_app in Hcs. apply andb_prop in Hcs as [_ H].
    cbn [forallb] in H. now apply andb_prop in H as [H _]. }
  rewrite (main_responds w content _ Hr).
  rewrite (list_collections_first_failure w _ pre post bad
             (items_of_array fields _ Hi) (records_passable w pre Hpre He)).
  - rewrite (record_lines_map w pre Hpre). unfold element_failure.
    now destruct (is_record_reportable w bad Hbad) as [-> _].
  - rewrite (is_record_passable w bad Hbad), Hc, Hb. reflexivity.
Qed.

Lemma writes_of_app (t u : list event) :
  writes_of (t ++ u) = writes_of t ++ writes_of u.
Proof.
  induction t as [| ev t IH]; simpl; [reflexivity |].
  destruct ev; auto. now rewrite IH.
Qed.

Lemma writes_of_printed (lines : list text) :
  writes_of (map printed lines) = map (fun l => l ++ nl) lines.
Proof.
  induction lines as [| l lines IH]; simpl; [reflexivity | now rewrite IH].
Qed.

(** The writes of a run over well-formed records. *)

(** The writes of a run over records whose lines can all be encoded. *)
Lemma main_records_writes (w : env) (content : text)
    (fields : list (text * json)) (cs : list json) :
  responds w content (JObj fields) ->
  assoc fields (lit "items") = Some (JArr cs) ->
  forallb is_record cs = true ->
  forallb record_encodable (filter custom_record cs) = true ->
  writes_of (trace (main w)) =
  (header_line ++ nl)
    :: map (fun c => record_line c ++ nl) (filter custom_record cs)
    ++ [total_line (length (filter custom_record cs)) ++ nl].
Proof.
  intros Hr Hi Hcs He. rewrite (main_records w content fields cs Hr Hi Hcs He).
  cbn [trace fst]. rewrite writes_of_app. cbn [prelude writes_of app].
  rewrite writes_of_app. cbn [printed writes_of].
  rewrite <- (map_map record_line printed), writes_of_printed, map_map.
  reflexivity.
Qed.

Lemma main_records_stopped_writes (w : env) (content : text)
    (fields : list (text * json)) (pre post : list json) (bad : json) :
  responds w content (JObj fields) ->
  assoc fields (lit "items") = Some (JArr (pre ++ bad :: post)) ->
  forallb is_record (pre ++ bad :: post) = true ->
  forallb record_encodable (filter custom_record pre) = true ->
  custom_record bad = true ->
  record_encodable bad = false ->
  writes_of (trace (main w)) =
  (header_line ++ nl)
    :: map (fun c => record_line c ++ nl) (filter custom_record pre).
Proof.
  intros Hr Hi Hcs He Hc Hb.
  rewrite (main_records_stopped w content fields pre post bad
             Hr Hi Hcs He Hc Hb).
  cbn [trace fst]. rewrite writes_of_app. cbn [prelude writes_of app].
  rewrite <- (map_map record_line printed), writes_of_printed, map_map.
  reflexivity.
Qed.

(** ** What the report can emit *)

Lemma bind_events {A B} (P : event -> Prop) (m : M A) (f : A -> M B) :
  Forall P (trace m) -> (forall a, Forall P (trace (f a))) ->
  Forall P (trace (bind m f)).
Proof.
  intros Hm Hf. rewrite trace_bind. apply Forall_app. split; [exact Hm |].
  destruct (outcome m); [constructor | apply Hf].
Qed.

Lemma getitem_silent (v : json) (key : text) : trace (getitem v key) = [].
Proof.
  unfold getitem. destruct v; try reflexivity.
  now destruct (assoc fields key).
Qed.

Lemma iter_silent (v : json) : trace (iter v) = [].
Proof. now destruct v. Qed.

Lemma is_custom_silent (c : json) : trace (is_custom c) = [].
Proof.
  unfold is_custom. rewrite trace_bind, getitem_silent.
  destruct (outcome (getitem c (lit "name"))) as [e | name]; [reflexivity |].
  now destruct name.
Qed.

(** When the filter keeps [c], its name is a string without the
    underscore. *)
Lemma is_custom_true (c : json) :
  outcome (is_custom c) = inr true ->
  exists n, getitem c (lit "name") = ret (JStr n) /\
            startswith n (lit "_") = false.
Proof.
  unfold is_custom, getitem. destruct c; try discriminate.
  destruct (assoc fields (lit "name")) as [name |]; [| discriminate].
  rewrite bind_ret_l. destruct name; try discriminate.
  unfold startswith_method. rewrite bind_ret_l. cbn [outcome snd ret].
  intros [= H]. exists s. split; [reflexivity |].
  now destruct (startswith s (lit "_")).
Qed.

Lemma loop_body_events (w : env) (c : json) :
  Forall report_event (trace (loop_body w c)).
Proof.
  unfold loop_body. rewrite trace_bind, is_custom_silent. cbn [app].
  destruct (outcome (is_custom c)) as [e | [|]] eqn:Hk; try constructor.
  destruct (is_custom_true c Hk) as [n [-> Hn]]. rewrite bind_ret_l.
  rewrite trace_bind, getitem_silent. cbn [app].
  destruct (outcome (getitem c (lit "id"))) as [e | id]; [constructor |].
  unfold print. destruct (encodable _); constructor; [| constructor].
  right. left. exists n, (fmt w id). split; [exact Hn | reflexivity].
Qed.

Lemma for_each_events {A} (P : event -> Prop) (xs : list A)
    (body : A -> M unit) :
  (forall x, Forall P (trace (body x))) ->
  Forall P (trace (for_each xs body)).
Proof.
  intros Hb. induction xs as [| x xs IH]; [constructor |].
  cbn [for_each]. apply bind_events; auto.
Qed.

Lemma comprehension_silent {A} (xs : list A) (cond : A -> M bool) :
  (forall x, trace (cond x) = []) -> trace (comprehension xs cond) = [].
Proof.
  intros Hc. induction xs as [| x xs IH]; [reflexivity |].
  cbn [comprehension]. rewrite trace_bind, Hc. cbn [app].
  destruct (outcome (cond x)); [reflexivity |].
  rewrite trace_bind, IH. cbn [app].
  now destruct (outcome (comprehension xs cond)).
Qed.

Lemma list_collections_events (w : env) (data : json) :
  Forall report_event (trace (list_collections w data)).
Proof.
  unfold list_collections. rewrite print_header.
  apply bind_events. { constructor; [now left | constructor]. }
  intros _. apply bind_events. { rewrite getitem_silent. constructor. }
  intros items. apply bind_events. { rewrite iter_silent. constructor. }
  intros cs. apply bind_events.
  { apply for_each_events. apply loop_body_events. }
  intros _. apply bind_events. { rewrite getitem_silent. constructor. }
  intros items'. apply bind_events. { rewrite iter_silent. constructor. }
  intros cs'. apply bind_events.
  { rewrite comprehension_silent by apply is_custom_silent. constructor. }
  intros kept. rewrite print_total. constructor; [| constructor].
  right. right. now exists (length kept).
Qed.

Lemma report_events_no_get (t : list event) :
  Forall report_event t -> gets_of t = [].
Proof.
  induction 1 as [| ev t Hev _ IH]; [reflexivity |].
  destruct ev; try contradiction. exact IH.
Qed.

Lemma report_events_no_file (t : list event) :
  Forall report_event t -> file_events_of t = [].
Proof.
  induction 1 as [| ev t Hev _ IH]; [reflexivity |].
  destruct ev; try contradiction. exact IH.
Qed.

Lemma report_events_writes (t : list event) :
  Forall report_event t -> Forall report_write (writes_of t).
Proof.
  induction 1 as [| ev t Hev _ IH]; [constructor |].
  destruct ev; try contradiction. now constructor.
Qed.

(** ** Records that are skipped *)

Lemma bind_ext {A B} (m : M A) (f g : A -> M B) :
  (forall a, f a = g a) -> bind m f = bind m g.
Proof.
  intros H. destruct m as [t [e | a]]; [reflexivity |].
  unfold bind. now rewrite H.
Qed.

Lemma for_each_ext {A} (xs : list A) (body body' : A -> M unit) :
  (forall x, body x = body' x) -> for_each xs body = for_each xs body'.
Proof.
  intros H. induction xs as [| x xs IH]; [reflexivity |].
  cbn [for_each]. rewrite H. apply bind_ext. intros _. exact IH.
Qed.

Lemma for_each_skip {A} (pre post : list A) (x : A) (body : A -> M unit) :
  body x = ret tt ->
  for_each (pre ++ x :: post) body = for_each (pre ++ post) body.
Proof.
  intros Hx. induction pre as [| y pre IH]; cbn [app for_each].
  - now rewrite Hx, bind_ret_l.
  - apply bind_ext. intros _. exact IH.
Qed.

Lemma comprehension_skip {A} (pre post : list A) (x : A)
    (cond : A -> M bool) :
  cond x = ret false ->
  comprehension (pre ++ x :: post) cond = comprehension (pre ++ post) cond.
Proof.
  intros Hx. induction pre as [| y pre IH]; cbn [app comprehension].
  - rewrite Hx, bind_ret_l.
    destruct (comprehension post cond) as [t [e | kept]]; [reflexivity |].
    rewrite bind_value. cbn [ret trace outcome fst snd].
    now rewrite app_nil_r.
  - apply bind_ext. intros b. now rewrite IH.
Qed.

Lemma fmt_ext (w w' : env) (v : json) :
  (forall v, str_of w' v = str_of w v) -> fmt w' v = fmt w v.
Proof. intros H. destruct v; cbn [fmt]; auto. Qed.

Lemma loop_body_ext (w w' : env) (c : json) :
  (forall v, str_of w' v = str_of w v) -> loop_body w' c = loop_body w c.
Proof.
  intros H. unfold loop_body. apply bind_ext. intros [|]; [| reflexivity].
  apply bind_ext. intros name. apply bind_ext. intros id.
  now rewrite !(fmt_ext w w' _ H).
Qed.

Lemma list_collections_skip (w w' : env) (fields fields' : list (text * json))
    (pre post : list json) (c : json) :
  (forall v, str_of w' v = str_of w v) ->
  assoc fields (lit "items") = Some (JArr (pre ++ c :: post)) ->
  assoc fields' (lit "items") = Some (JArr (pre ++ post)) ->
  system_record c = true ->
  list_collections w' (JObj fields') = list_collections w (JObj fields).
Proof.
  intros Hstr Hi Hi' Hc. unfold list_collections, getitem, iter.
  rewrite Hi, Hi'. apply bind_ext. intros _. rewrite !bind_ret_l.
  rewrite (for_each_skip pre post c (loop_body w) (loop_body_system w c Hc)).
  rewrite (comprehension_skip pre post c is_custom (is_custom_system c Hc)).
  rewrite (for_each_ext (pre ++ post) (loop_body w') (loop_body w)
             (fun x => loop_body_ext w w' x Hstr)).
  reflexivity.
Qed.

Lemma stdout_main_responds (w : env) (content : text) (data : json) :
  responds w content data ->
  stdout (main w) = stdout (list_collections w data) /\
  outcome (main w) = outcome (list_collections w data).
Proof.
  intros Hr. rewrite (main_responds w content data Hr).
  split; [| reflexivity]. unfold stdout. cbn [trace fst].
  now rewrite stdout_of_app.
Qed.

(** A line for a name with the underscore is none of the report's
    writes. *)
Lemma system_line_not_report_write (n x : text) :
  startswith n (lit "_") = true ->
  ~ report_write ((lit "  " ++ n ++ lit ": " ++ x) ++ nl).
Proof.
  intros Hn [H | [[n' [x' [Hn' H]]] | [count H]]].
  - discriminate H.
  - cbn [lit list_ascii_of_string map app] in H.
    injection H as H. destruct n as [| a n]; [discriminate Hn |].
    destruct n' as [| a' n'].
    + cbn [app] in H. injection H as -> _.
      discriminate Hn.
    + cbn [app] in H. injection H as -> _.
      cbn [startswith lit list_ascii_of_string map] in Hn, Hn'.
      destruct n, n'; cbn in Hn, Hn'; congruence.
  - discriminate H.
Qed.

(** ** Stripping *)

Lemma lstrip_split (s : text) :
  exists l, s = l ++ lstrip s /\ forallb isspace l = true.
Proof.
  induction s as [| c s [l [Hs Hl]]].
  - now exists [].
  - cbn [lstrip]. destruct (isspace c) eqn:Hc.
    + exists (c :: l). cbn [app forallb]. rewrite Hc, Hl. now rewrite <- Hs.
    + now exists [].
Qed.

Lemma lstrip_head (s : text) (c : char) (r : text) :
  lstrip s = c :: r -> isspace c = false.
Proof.
  induction s as [| a s IH]; [discriminate |].
  cbn [lstrip]. destruct (isspace a) eqn:Ha; [exact IH |].
  now intros [= <- _].
Qed.

Lemma forallb_rev {A} (f : A -> bool) (l : list A) :
  forallb f l = true -> forallb f (rev l) = true.
Proof.
  rewrite !forallb_forall. intros H x Hx. apply H. now apply in_rev.
Qed.

Lemma strip_split (s : text) :
  exists l r, s = l ++ strip s ++ r /\
              forallb isspace l = true /\ forallb isspace r = true.
Proof.
  destruct (lstrip_split s) as [l [Hs Hl]].
  destruct (lstrip_split (rev (lstrip s))) as [r [Hr Hsp]].
  exists l, (rev r). repeat split; [| exact Hl | now apply forallb_rev].
  unfold strip, rstrip. rewrite <- rev_app_distr, <- Hr, rev_involutive.
  exact Hs.
Qed.

Lemma strip_head (s : text) (c : char) :
  hd_error (strip s) = Some c -> isspace c = false.
Proof.
  destruct (lstrip_split (rev (lstrip s))) as [r [Hr _]].
  apply (f_equal (@rev char)) in Hr.
  rewrite rev_involutive, rev_app_distr in Hr.
  fold (rstrip (lstrip s)) in Hr. fold (strip s) in Hr.
  destruct (strip s) as [| a t]; [discriminate |].
  intros [= ->]. exact (lstrip_head s _ _ Hr).
Qed.

Lemma strip_last (s : text) (c : char) :
  hd_error (rev (strip s)) = Some c -> isspace c = false.
Proof.
  unfold strip, rstrip. rewrite rev_involutive.
  destruct (lstrip (rev (lstrip s))) as [| a t] eqn:H; [discriminate |].
  intros [= ->]. exact (lstrip_head _ _ _ H).
Qed.

(** ** Up to the request *)

Lemma read_token_open_fails (w : env) (c : file_error) :
  files w token_path = OpenFails c ->
  read_token w = ([Open token_path], inl (FileError c)).
Proof.
  intros Hf. unfold read_token, with_open. now rewrite Hf.
Qed.

Lemma read_token_read_fails (w : env) (c : file_error) :
  files w token_path = ReadFails c ->
  read_token w =
  ([Open token_path; Read token_path; Close token_path],
   inl (FileError c)).
Proof.
  intros Hf. unfold read_token, with_open, read. now rewrite Hf.
Qed.

Lemma get_collections_fails (w : env) (token : text) :
  server w (auth_request token) = NetFails ->
  get_collections w token = ([HttpGet (auth_request token)], inl NetworkError).
Proof.
  intros Hs. unfold get_collections, requests_get.
  fold (auth_request token). now rewrite Hs.
Qed.

(** Once the token is read, the run is the prelude followed by events
    of the report only. *)
Lemma main_contents (w : env) (content : text) :
  files w token_path = Contents content ->
  exists t, trace (main w) = prelude content ++ t /\
            Forall report_event t.
Proof.
  intros Hf. unfold main.
  rewrite (read_token_contents w content Hf), bind_value.
  destruct (server w (auth_request (strip content))) as [| r] eqn:Hs.
  - rewrite (get_collections_fails w _ Hs).
    exists []. split; [reflexivity | constructor].
  - rewrite (get_collections_resp w _ r Hs), bind_value.
    unfold response_json. destruct (body_json r) as [data |].
    + rewrite bind_ret_l. exists (trace (list_collections w data)).
      split; [reflexivity | apply list_collections_events].
    + exists []. split; [reflexivity | constructor].
Qed.

(** ** Lines of the output *)


















(** The first custom record whose line cannot be encoded. *)
Lemma first_unencodable (cs : list json) :
  forallb record_encodable (filter custom_record cs) = false ->
  exists pre bad post,
    cs = pre ++ bad :: post /\
    forallb record_encodable (filter custom_record pre) = true /\
    custom_record bad = true /\ record_encodable bad = false.
Proof.
  induction cs as [| c cs IH]; [discriminate |].
  cbn [filter]. destruct (custom_record c) eqn:Hc.
  - cbn [forallb]. destruct (record_encodable c) eqn:He.
    + cbn [andb]. intros H.
      destruct (IH H) as [pre [bad [post [-> [Hp [Hb Hu]]]]]].
      exists (c :: pre), bad, post. cbn [filter app]. rewrite Hc.
      cbn [forallb]. now rewrite He, Hp.
    + intros _. now exists [], c, cs.
  - intros H. destruct (IH H) as [pre [bad [post [-> [Hp [Hb Hu]]]]]].
    exists (c :: pre), bad, post. cbn [filter app]. now rewrite Hc.
Qed.



(** ** The scenarios, run *)

Example scenario_a_run :
  main scenario_a =
  (prelude sample_token
     ++ [printed (lit "Custom collections:");
         printed (nl ++ lit "Total: 0 custom collections")],
   inr tt).
Proof. reflexivity. Qed.

Example scenario_b_run :
  main scenario_b =
  (prelude sample_token
     ++ [printed (lit "Custom collections:");
         printed (lit "  posts: abc123");
         printed (nl ++ lit "Total: 1 custom collections")],
   inr tt).
Proof. reflexivity. Qed.

Example scenario_b_stdout :
  stdout (main scenario_b) =
  lit "Custom collections:" ++ nl
    ++ lit "  posts: abc123" ++ nl
    ++ nl ++ lit "Total: 1 custom collections" ++ nl.
Proof. reflexivity. Qed.

Example scenario_c_run :
  main scenario_c = ([Open token_path], inl (FileError NotFound)).
Proof. reflexivity. Qed.

Example scenario_unreadable_run :
  main scenario_unreadable =
  ([Open token_path; Read token_path; Close token_path],
   inl (FileError ReadFailed)).
Proof. reflexivity. Qed.

Example scenario_d_run :
  main scenario_d =
  (prelude sample_token ++ [printed (lit "Custom collections:")],
   inl (KeyError (lit "items"))).
Proof. reflexivity. Qed.

Example scenario_mixed_stdout :
  stdout (main scenario_mixed) =
  lit "Custom collections:" ++ nl
    ++ lit "  posts: abc123" ++ nl
    ++ lit "  : xyz789" ++ nl
    ++ lit "  users: def456" ++ nl
    ++ nl ++ lit "Total: 3 custom collections" ++ nl.
Proof. reflexivity. Qed.

Example strip_sample : strip sample_token = lit "secret-token".
Proof. reflexivity. Qed.

Example strip_keeps_inner_whitespace :
  strip (lit " a b " ++ nl) = lit "a b".
Proof. reflexivity. Qed.

(** * The claims *)

(** C2.  When [items] is the empty array the run succeeds and its whole
    standard output is the header, a blank line and a total of zero:
    ["Custom collections:\n\nTotal: 0 custom collections\n"]. *)
Theorem empty_items_output (w : env) (content : text)
    (fields : list (text * json)) :
  responds w content (JObj fields) ->
  assoc fields (lit "items") = Some (JArr []) ->
  outcome (main w) = inr tt /\
  stdout (main w) =
  lit "Custom collections:" ++ nl ++ nl
    ++ lit "Total: 0 custom collections" ++ nl.
Proof.
  intros Hr Hi.
  rewrite (main_records w content fields [] Hr Hi eq_refl eq_refl).
  split; [reflexivity |].
  unfold stdout. cbn [trace fst]. now rewrite stdout_of_app.
Qed.

Lemma empty_items_output_witness :
  responds scenario_a sample_token (envelope []) /\
  outcome (main scenario_a) = inr tt /\
  stdout (main scenario_a) =
  lit "Custom collections:" ++ nl ++ nl
    ++ lit "Total: 0 custom collections" ++ nl.
Proof.
  assert (Hr : responds scenario_a sample_token (envelope [])).
  { split; [reflexivity |]. eexists. split; reflexivity. }
  split; [exact Hr |].
  exact (empty_items_output scenario_a sample_token _ Hr eq_refl).
Defined.




(** C5.  The record lines are written in the order in which the custom
    records stand in [items]: what is written is the header, then the
    lines of the custom records of a front part of [items], from left
    to right, and then either the total, the front part being all of
    [items], or nothing more, the run having stopped at the first
    custom record whose line standard output cannot encode. *)
Theorem lines_follow_items_order (w : env) (content : text)
    (fields : list (text * json)) (cs : list json) :
  responds w content (JObj fields) ->
  assoc fields (lit "items") = Some (JArr cs) ->
  forallb is_record cs = true ->
  (exists (shown rest : list json) (tail : list text),
     cs = shown ++ rest /\
     writes_of (trace (main w)) =
     (header_line ++ nl)
       :: map (fun c => record_line c ++ nl) (filter custom_record shown)
       ++ tail /\
     (rest = [] /\
      tail = [total_line (length (filter custom_record cs)) ++ nl] /\
      outcome (main w) = inr tt
      \/
      tail = [] /\ outcome (main w) = inl UnicodeEncodeError /\
      exists bad post, rest = bad :: post /\ custom_record bad = true /\
                       record_encodable bad = false)) /\
  (forallb record_encodable (filter custom_record cs) = true ->
   forall before a between b after,
     cs = before ++ a :: between ++ b :: after ->
     custom_record a = true -> custom_record b = true ->
     exists l1 l2 l3 : list text,
       writes_of (trace (main w)) =
       l1 ++ (record_line a ++ nl) :: l2 ++ (record_line b ++ nl) :: l3).
Proof.
  intros Hr Hi Hcs. split.
  - destruct (forallb record_encodable (filter custom_record cs)) eqn:He.
    + exists cs, [], [total_line (length (filter custom_record cs)) ++ nl].
      split; [now rewrite app_nil_r |]. split.
      * exact (main_records_writes w content fields cs Hr Hi Hcs He).
      * left. repeat split.
        now rewrite (main_records w content fields cs Hr Hi Hcs He).
    + destruct (first_unencodable cs He)
        as [pre [bad [post [-> [Hp [Hb Hu]]]]]].
      exists pre, (bad :: post), []. split; [reflexivity |]. split.
      * rewrite app_nil_r.
        exact (main_records_stopped_writes w content fields pre post bad
                 Hr Hi Hcs Hp Hb Hu).
      * right. split; [reflexivity |]. split.
        { now rewrite (main_records_stopped w content fields pre post bad
                         Hr Hi Hcs Hp Hb Hu). }
        now exists bad, post.
  - intros He before a between b after -> Ha Hb.
    rewrite (main_records_writes w content fields _ Hr Hi Hcs He).
    set (line := fun c => record_line c ++ nl).
    set (total := total_line _ ++ nl).
    exists ((header_line ++ nl) :: map line (filter custom_record before)),
           (map line (filter custom_record between)),
           (map line (filter custom_record after) ++ [total]).
    assert (Hf : filter custom_record (before ++ a :: between ++ b :: after) =
                 filter custom_record before
                   ++ a :: filter custom_record between
                   ++ b :: filter custom_record after).
    { rewrite filter_app. cbn [filter]. rewrite Ha, filter_app. cbn [filter].
      now rewrite Hb. }
    rewrite Hf, map_app. cbn [map]. rewrite map_app. cbn [map app]. f_equal.
    rewrite <- app_assoc. cbn [app]. do 2 f_equal.
    rewrite <- app_assoc. reflexivity.
Qed.

Lemma lines_follow_items_order_witness :
  (exists (shown rest : list json) (tail : list text),
     [posts; superusers; nameless; users] = shown ++ rest /\
     writes_of (trace (main scenario_mixed)) =
     (header_line ++ nl)
       :: map (fun c => record_line c ++ nl) (filter custom_record shown)
       ++ tail /\
     (rest = [] /\
      tail = [total_line (length (filter custom_record
                [posts; superusers; nameless; users])) ++ nl] /\
      outcome (main scenario_mixed) = inr tt
      \/
      tail = [] /\ outcome (main scenario_mixed) = inl UnicodeEncodeError /\
      exists bad post, rest = bad :: post /\ custom_record bad = true /\
                       record_encodable bad = false)) /\
  (exists l1 l2 l3 : list text,
     writes_of (trace (main scenario_mixed)) =
     l1 ++ (record_line posts ++ nl) :: l2 ++ (record_line users ++ nl) :: l3).
Proof.
  destruct (lines_follow_items_order scenario_mixed sample_token
              [(lit "items", JArr [posts; superusers; nameless; users])]
              [posts; superusers; nameless; users]) as [Hfront Horder].
  - split; [reflexivity |]. eexists. split; reflexivity.
  - reflexivity.
  - reflexivity.
  - split; [exact Hfront |].
    apply (Horder eq_refl [] posts [superusers; nameless] users []);
      reflexivity.
Defined.

(** C3.  A record of [items] whose name begins with an underscore is
    not reported: no line for its name is ever written, and a run on the
    same [items] without that record writes the same output, total
    included, and ends the same way. *)
Theorem system_record_not_reported (w : env) (content : text)
    (fields : list (text * json)) (pre post : list json) (c : json) :
  responds w content (JObj fields) ->
  assoc fields (lit "items") = Some (JArr (pre ++ c :: post)) ->
  system_record c = true ->
  (forall n x, record_name c = Some n ->
     ~ In ((lit "  " ++ n ++ lit ": " ++ x) ++ nl)
          (writes_of (trace (main w)))) /\
  (forall w' content' fields',
     responds w' content' (JObj fields') ->
     (forall v, str_of w' v = str_of w v) ->
     assoc fields' (lit "items") = Some (JArr (pre ++ post)) ->
     stdout (main w') = stdout (main w) /\
     outcome (main w') = outcome (main w)).
Proof.
  intros Hr Hi Hc. split.
  - intros n x Hn Hin. unfold system_record in Hc. rewrite Hn in Hc.
    rewrite (main_responds w content _ Hr) in Hin. cbn [trace fst] in Hin.
    rewrite writes_of_app in Hin. cbn [prelude writes_of app] in Hin.
    pose proof (report_events_writes _
                  (list_collections_events w (JObj fields))) as Hall.
    rewrite Forall_forall in Hall.
    exact (system_line_not_report_write n x Hc (Hall _ Hin)).
  - intros w' content' fields' Hr' Hstr Hi'.
    destruct (stdout_main_responds w content _ Hr) as [-> ->].
    destruct (stdout_main_responds w' content' _ Hr') as [-> ->].
    now rewrite (list_collections_skip w w' fields fields' pre post c
                   Hstr Hi Hi' Hc).
Qed.

Lemma system_record_not_reported_witness :
  (forall x,
     ~ In ((lit "  " ++ lit "_superusers" ++ lit ": " ++ x) ++ nl)
          (writes_of (trace (main scenario_mixed)))) /\
  stdout (main scenario_mixed_without_system)
    = stdout (main scenario_mixed) /\
  outcome (main scenario_mixed_without_system)
    = outcome (main scenario_mixed).
Proof.
  destruct (system_record_not_reported scenario_mixed sample_token
              [(lit "items", JArr [posts; superusers; nameless; users])]
              [posts] [nameless; users] superusers) as [Hline Hsame].
  - split; [reflexivity |]. eexists. split; reflexivity.
  - reflexivity.
  - reflexivity.
  - split.
    + intros x. apply Hline. reflexivity.
    + apply (Hsame scenario_mixed_without_system sample_token
               [(lit "items", JArr [posts; nameless; users])]).
      * split; [reflexivity |]. eexists. split; reflexivity.
      * reflexivity.
      * reflexivity.
Defined.

(** C10 as the script behaves.  A record whose name is the empty
    string counts as custom.  Among records with string [name] and
    [id]: when standard output can encode the lines of the custom
    records before it and its own [id], its line ["  : <id>"] is
    written at its place; when it can encode the lines of all the
    custom records, the total counts it. *)
Theorem empty_name_is_reported (w : env) (content : text)
    (fields : list (text * json)) (pre post : list json) (c : json)
    (id : text) :
  responds w content (JObj fields) ->
  assoc fields (lit "items") = Some (JArr (pre ++ c :: post)) ->
  forallb is_record (pre ++ c :: post) = true ->
  record_name c = Some [] ->
  record_id c = Some id ->
  custom_record c = true /\
  (forallb record_encodable (filter custom_record pre) = true ->
   encodable id = true ->
   exists rest : list text,
     writes_of (trace (main w)) =
     (header_line ++ nl)
       :: map (fun r => record_line r ++ nl) (filter custom_record pre)
       ++ ((lit "  : " ++ id) ++ nl) :: rest) /\
  (forallb record_encodable (filter custom_record (pre ++ c :: post)) = true ->
   writes_of (trace (main w)) =
   (header_line ++ nl)
     :: map (fun r => record_line r ++ nl) (filter custom_record pre)
     ++ ((lit "  : " ++ id) ++ nl)
     :: map (fun r => record_line r ++ nl) (filter custom_record post)
     ++ [total_line (length (filter custom_record pre) + 1
                     + length (filter custom_record post)) ++ nl]).
Proof.
  intros Hr Hi Hcs Hn Hid.
  assert (Hc : custom_record c = true).
  { unfold custom_record. now rewrite Hn. }
  assert (Hl : record_line c = lit "  : " ++ id).
  { unfold record_line. now rewrite Hn, Hid. }
  assert (Hsplit : forall l,
            map (fun r => record_line r ++ nl)
              (filter custom_record (pre ++ c :: l)) =
            map (fun r => record_line r ++ nl) (filter custom_record pre)
              ++ ((lit "  : " ++ id) ++ nl)
              :: map (fun r => record_line r ++ nl) (filter custom_record l)).
  { intros l. rewrite filter_app. cbn [filter]. rewrite Hc, map_app.
    cbn [map]. now rewrite Hl. }
  assert (Hfull : forallb record_encodable
                    (filter custom_record (pre ++ c :: post)) = true ->
            writes_of (trace (main w)) =
            (header_line ++ nl)
              :: map (fun r => record_line r ++ nl) (filter custom_record pre)
              ++ ((lit "  : " ++ id) ++ nl)
              :: map (fun r => record_line r ++ nl)
                   (filter custom_record post)
              ++ [total_line (length (filter custom_record pre) + 1
                              + length (filter custom_record post)) ++ nl]).
  { intros He.
    rewrite (main_records_writes w content fields _ Hr Hi Hcs He).
    rewrite Hsplit, filter_app. cbn [filter]. rewrite Hc, length_app.
    cbn [length]. rewrite <- app_assoc. cbn [app].
    now replace (length (filter custom_record pre)
                 + S (length (filter custom_record post)))
      with (length (filter custom_record pre) + 1
            + length (filter custom_record post)) by lia. }
  split; [exact Hc |]. split; [| exact Hfull].
  intros Hpre Henc.
  assert (Hce : record_encodable c = true).
  { unfold record_encodable. rewrite Hl, encodable_app, Henc.
    now rewrite lit_encodable. }
  destruct (forallb record_encodable (filter custom_record post)) eqn:Hpost.
  - eexists. apply Hfull. rewrite filter_app, forallb_app, Hpre.
    cbn [filter]. rewrite Hc. cbn [forallb]. now rewrite Hce, Hpost.
  - destruct (first_unencodable post Hpost)
      as [p1 [bad [p2 [-> [Hp1 [Hb Hu]]]]]].
    exists (map (fun r => record_line r ++ nl) (filter custom_record p1)).
    assert (E : pre ++ c :: p1 ++ bad :: p2 = (pre ++ c :: p1) ++ bad :: p2).
    { now rewrite <- app_assoc. }
    rewrite E in Hi, Hcs.
    rewrite (main_records_stopped_writes w content fields (pre ++ c :: p1)
               p2 bad Hr Hi Hcs); [apply f_equal, Hsplit | | exact Hb | exact Hu].
    rewrite filter_app, forallb_app, Hpre. cbn [filter]. rewrite Hc.
    cbn [forallb]. now rewrite Hce, Hp1.
Qed.

Lemma empty_name_is_reported_witness :
  custom_record nameless = true /\
  (exists rest : list text,
     writes_of (trace (main scenario_mixed)) =
     (header_line ++ nl)
       :: map (fun r => record_line r ++ nl)
            (filter custom_record [posts; superusers])
       ++ ((lit "  : " ++ lit "xyz789") ++ nl) :: rest) /\
  writes_of (trace (main scenario_mixed)) =
  (header_line ++ nl)
    :: map (fun r => record_line r ++ nl)
         (filter custom_record [posts; superusers])
    ++ ((lit "  : " ++ lit "xyz789") ++ nl)
    :: map (fun r => record_line r ++ nl) (filter custom_record [users])
    ++ [total_line (length (filter custom_record [posts; superusers]) + 1
                    + length (filter custom_record [users])) ++ nl].
Proof.
  destruct (empty_name_is_reported scenario_mixed sample_token
              [(lit "items", JArr [posts; superusers; nameless; users])]
              [posts; superusers] [users] nameless (lit "xyz789"))
    as [Hcustom [Hline Hcount]].
  - split; [reflexivity |]. eexists. split; reflexivity.
  - reflexivity.
  - reflexivity.
  - reflexivity.
  - reflexivity.
  - split; [exact Hcustom |]. split.
    + apply Hline; reflexivity.
    + apply Hcount. reflexivity.
Defined.

(** C10 as stated fails on a record with the empty name whose [id] is
    an unpaired surrogate: the run stops at its [print], its line is
    not written and no total counts it. *)
Lemma empty_name_unprintable_id :
  responds scenario_unprintable sample_token
    (envelope [posts; unprintable; users]) /\
  forallb is_record [posts; unprintable; users] = true /\
  record_name unprintable = Some [] /\
  main scenario_unprintable =
  (prelude sample_token
     ++ [printed (lit "Custom collections:"); printed (lit "  posts: abc123")],
   inl UnicodeEncodeError).
Proof.
  split; [split; [reflexivity | eexists; split; reflexivity] |].
  repeat split.
Qed.

(** C1 as the script behaves.  When the parsed response has no [items],
    the run ends in the failure of that lookup, the [KeyError] of the
    missing field for an object, and standard output holds the header
    line, which was printed before the field was looked up. *)
Theorem missing_items_aborts_after_header (w : env) (content : text)
    (data : json) :
  responds w content data ->
  lacks_items data ->
  outcome (main w) = inl (items_lookup_failure data) /\
  stdout (main w) = lit "Custom collections:" ++ nl.
Proof.
  intros Hr Hi.
  destruct (stdout_main_responds w content _ Hr) as [-> ->].
  unfold list_collections, getitem.
  destruct data; try (split; reflexivity).
  cbn [lacks_items] in Hi. rewrite Hi. split; reflexivity.
Qed.

Lemma missing_items_aborts_after_header_witness :
  outcome (main scenario_d) = inl (KeyError (lit "items")) /\
  stdout (main scenario_d) = lit "Custom collections:" ++ nl.
Proof.
  apply (missing_items_aborts_after_header scenario_d sample_token
           error_body).
  - split; [reflexivity |]. eexists. split; reflexivity.
  - reflexivity.
Defined.

(** C1 as stated fails on a 404 with a JSON error body: the response is
    valid JSON without [items], the run aborts, and standard output is
    not empty. *)
Lemma missing_items_output_not_empty :
  responds scenario_d sample_token error_body /\
  lacks_items error_body /\
  outcome (main scenario_d) = inl (KeyError (lit "items")) /\
  stdout (main scenario_d) <> [].
Proof.
  split; [split; [reflexivity | eexists; split; reflexivity] |].
  split; [reflexivity |]. split; [reflexivity |].
  vm_compute. discriminate.
Qed.

(** C9.  Whatever the parsed response, the header is the first thing
    written; when the lookup of [items] then fails, the run ends with
    that failure and the header is all it wrote. *)
Theorem header_precedes_items_lookup (w : env) (content : text)
    (data : json) :
  responds w content data ->
  (exists rest,
     trace (main w) = prelude content ++ printed header_line :: rest) /\
  (forall e, getitem data (lit "items") = raise e ->
     trace (main w) = prelude content ++ [printed header_line] /\
     outcome (main w) = inl e /\
     stdout (main w) = header_line ++ nl).
Proof.
  intros Hr. rewrite (main_responds w content data Hr).
  unfold list_collections. rewrite print_header, bind_emit.
  cbn [trace outcome fst snd]. split; [eexists; reflexivity |].
  intros e He. rewrite He. cbn [bind raise trace outcome fst snd].
  repeat split.
Qed.

Lemma header_precedes_items_lookup_witness :
  (exists rest,
     trace (main scenario_d)
       = prelude sample_token ++ printed header_line :: rest) /\
  (forall e, getitem error_body (lit "items") = raise e ->
     trace (main scenario_d) = prelude sample_token ++ [printed header_line] /\
     outcome (main scenario_d) = inl e /\
     stdout (main scenario_d) = header_line ++ nl).
Proof.
  apply (header_precedes_items_lookup scenario_d sample_token error_body).
  split; [reflexivity |]. eexists. split; reflexivity.
Defined.

(** C6.  When the token file cannot be opened or cannot be read, the
    run ends with the file error; it has called [requests.get] not once,
    written nothing, and touched no file but the token file. *)
Theorem token_unavailable_aborts_before_request (w : env)
    (c : file_error) :
  files w token_path = OpenFails c \/ files w token_path = ReadFails c ->
  outcome (main w) = inl (FileError c) /\
  gets_of (trace (main w)) = [] /\
  stdout (main w) = [] /\
  Forall (fun ev => ev = Open token_path \/ ev = Read token_path
                    \/ ev = Close token_path) (trace (main w)).
Proof.
  intros [Hf | Hf]; unfold main.
  - rewrite (read_token_open_fails w c Hf), bind_failure.
    repeat split. repeat constructor.
  - rewrite (read_token_read_fails w c Hf), bind_failure.
    repeat split. repeat (constructor; auto).
Qed.

Lemma token_unavailable_aborts_before_request_witness :
  outcome (main scenario_c) = inl (FileError NotFound) /\
  gets_of (trace (main scenario_c)) = [] /\
  stdout (main scenario_c) = [] /\
  Forall (fun ev => ev = Open token_path \/ ev = Read token_path
                    \/ ev = Close token_path) (trace (main scenario_c)).
Proof.
  apply (token_unavailable_aborts_before_request scenario_c NotFound).
  left. reflexivity.
Defined.

(** C7.  A run calls [requests.get] at most once; once the token is
    read it calls it exactly once, on the collections URL with
    [perPage=100] and with the stripped token, as it is, for the
    [Authorization] header. *)
Theorem single_get_with_raw_token (w : env) :
  length (gets_of (trace (main w))) <= 1 /\
  forall content, files w token_path = Contents content ->
    gets_of (trace (main w)) =
    [{| url := lit "http://localhost:8090/api/collections"
                 ++ lit "?perPage=100";
        headers := [(lit "Authorization", strip content)] |}].
Proof.
  assert (Hread : forall content, files w token_path = Contents content ->
            gets_of (trace (main w)) = [auth_request (strip content)]).
  { intros content Hf. destruct (main_contents w content Hf) as [t [-> Ht]].
    rewrite gets_of_app, (report_events_no_get t Ht). reflexivity. }
  split; [| exact Hread].
  destruct (files w token_path) as [c | c | content] eqn:Hf.
  - unfold main. rewrite (read_token_open_fails w c Hf), bind_failure.
    cbn. lia.
  - unfold main. rewrite (read_token_read_fails w c Hf), bind_failure.
    cbn. lia.
  - rewrite (Hread content eq_refl). cbn. lia.
Qed.

Lemma single_get_with_raw_token_witness :
  gets_of (trace (main scenario_b)) =
  [{| url := lit "http://localhost:8090/api/collections?perPage=100";
      headers := [(lit "Authorization", lit "secret-token")] |}].
Proof.
  exact (proj2 (single_get_with_raw_token scenario_b) sample_token eq_refl).
Defined.

(** C8.  The credential sent is the content of the token file without
    its leading and trailing whitespace, and nothing else of it is
    removed; the handle is closed whenever the file was opened, also
    when reading it fails. *)
Theorem token_stripped_and_handle_released (w : env) :
  (forall content, files w token_path = Contents content ->
     map headers (gets_of (trace (main w)))
       = [[(lit "Authorization", strip content)]] /\
     (exists l r, content = l ++ strip content ++ r /\
                  forallb isspace l = true /\ forallb isspace r = true) /\
     (forall c, hd_error (strip content) = Some c -> isspace c = false) /\
     (forall c, hd_error (rev (strip content)) = Some c ->
                isspace c = false)) /\
  file_events_of (trace (main w)) =
  match files w token_path with
  | OpenFails _ => [Open token_path]
  | _ => [Open token_path; Read token_path; Close token_path]
  end.
Proof.
  split.
  - intros content Hf. repeat split.
    + destruct (main_contents w content Hf) as [t [-> Ht]].
      rewrite gets_of_app, (report_events_no_get t Ht). reflexivity.
    + apply strip_split.
    + apply strip_head.
    + apply strip_last.
  - destruct (files w token_path) as [c | c | content] eqn:Hf.
    + unfold main. now rewrite (read_token_open_fails w c Hf), bind_failure.
    + unfold main. now rewrite (read_token_read_fails w c Hf), bind_failure.
    + destruct (main_contents w content Hf) as [t [-> Ht]].
      unfold file_events_of. rewrite filter_app.
      fold (file_events_of t). now rewrite (report_events_no_file t Ht).
Qed.

Lemma token_stripped_and_handle_released_witness :
  (map headers (gets_of (trace (main scenario_b)))
     = [[(lit "Authorization", lit "secret-token")]] /\
   (exists l r, sample_token = l ++ strip sample_token ++ r /\
                forallb isspace l = true /\ forallb isspace r = true) /\
   (forall c, hd_error (strip sample_token) = Some c ->
              isspace c = false) /\
   (forall c, hd_error (rev (strip sample_token)) = Some c ->
              isspace c = false)) /\
  file_events_of (trace (main scenario_unreadable)) =
  [Open token_path; Read token_path; Close token_path].
Proof.
  split.
  - exact (proj1 (token_stripped_and_handle_released scenario_b)
             sample_token eq_refl).
  - exact (proj2 (token_stripped_and_handle_released scenario_unreadable)).
Defined.

(** * Further properties *)

(** ** More on the report *)

Lemma list_collections_str_ext (w w' : env) (data : json) :
  (forall v, str_of w' v = str_of w v) ->
  list_collections w' data = list_collections w data.
Proof.
  intros H. unfold list_collections.
  apply bind_ext. intros _. apply bind_ext. intros items.
  apply bind_ext. intros cs.
  now rewrite (for_each_ext cs (loop_body w') (loop_body w)
                 (fun x => loop_body_ext w w' x H)).
Qed.

Lemma system_record_reportable (c : json) :
  system_record c = true -> reportable c = true /\ custom_record c = false.
Proof.
  unfold system_record, custom_record, reportable, record_name, str_field,
    field.
  destruct c; try discriminate.
  destruct (assoc fields (lit "name")) as [[] |]; try discriminate.
  now intros ->.
Qed.

Lemma all_system_filter (w : env) (cs : list json) :
  forallb system_record cs = true ->
  forallb (passable w) cs = true /\ filter custom_record cs = [].
Proof.
  induction cs as [| c cs IH]; [now split |].
  cbn [forallb filter]. intros [Hc Hcs]%andb_prop. unfold passable at 1.
  destruct (system_record_reportable c Hc) as [-> ->].
  exact (IH Hcs).
Qed.

Lemma lstrip_all_space (s : text) :
  forallb isspace s = true -> lstrip s = [].
Proof.
  induction s as [| c s IH]; [reflexivity |].
  cbn [forallb lstrip]. intros [-> Hs]%andb_prop. exact (IH Hs).
Qed.

Lemma strip_all_space (s : text) : forallb isspace s = true -> strip s = [].
Proof.
  intros H. unfold strip. now rewrite (lstrip_all_space s H).
Qed.

Lemma lstrip_clean (s : text) :
  (forall c, hd_error s = Some c -> isspace c = false) -> lstrip s = s.
Proof.
  destruct s as [| a s]; [reflexivity |].
  intros H. cbn [lstrip]. now rewrite (H a eq_refl).
Qed.

Lemma strip_clean (s : text) :
  (forall c, hd_error s = Some c -> isspace c = false) ->
  (forall c, hd_error (rev s) = Some c -> isspace c = false) ->
  strip s = s.
Proof.
  intros Hh Hl. unfold strip, rstrip.
  now rewrite (lstrip_clean s Hh), (lstrip_clean (rev s) Hl), rev_involutive.
Qed.

Lemma main_gets (w : env) (content : text) :
  files w token_path = Contents content ->
  gets_of (trace (main w)) = [auth_request (strip content)].
Proof.
  intros Hf. destruct (main_contents w content Hf) as [t [-> Ht]].
  rewrite gets_of_app, (report_events_no_get t Ht). reflexivity.
Qed.

Lemma report_events_stdout (t : list event) :
  Forall report_event t -> t = map Stdout (writes_of t).
Proof.
  induction 1 as [| ev t Hev _ IH]; [reflexivity |].
  destruct ev; try contradiction. cbn [writes_of map]. now rewrite <- IH.
Qed.

Lemma total_line_not_header (count : nat) :
  total_line count ++ nl <> header_line ++ nl.
Proof. discriminate. Qed.

Lemma total_line_not_report_line (w : env) (count : nat) (c : json) :
  total_line count ++ nl <> report_line w c ++ nl.
Proof. discriminate. Qed.

(** The total is written by the runs of the report that succeed, and by
    no other. *)
Lemma list_collections_total (w : env) (data : json) :
  (exists count,
     In (total_line count ++ nl) (writes_of (trace (list_collections w data))))
  <-> outcome (list_collections w data) = inr tt.
Proof.
  destruct (items_of data) as [cs |] eqn:Hi.
  - destruct (forallb (passable w) cs) eqn:Hcs.
    + rewrite (list_collections_passable w data cs Hi Hcs).
      split; [reflexivity |]. intros _.
      exists (length (filter custom_record cs)).
      cbn [trace fst writes_of printed]. right.
      rewrite writes_of_app. apply in_or_app. right. now left.
    + destruct (first_failing (passable w) cs Hcs)
        as [pre [bad [post [-> [Hp Hb]]]]].
      rewrite (list_collections_first_failure w data pre post bad Hi Hp Hb).
      split; [| discriminate]. intros [count Hin]. exfalso.
      cbn [trace fst writes_of printed] in Hin. destruct Hin as [H | Hin].
      * exact (total_line_not_header count (eq_sym H)).
      * rewrite <- (map_map (report_line w) printed), writes_of_printed in Hin.
        rewrite map_map in Hin. apply in_map_iff in Hin as [c [H _]].
        exact (total_line_not_report_line w count c (eq_sym H)).
  - destruct (items_of_none w data Hi) as [e ->].
    split; [| discriminate]. intros [count [H | []]].
    exfalso. exact (total_line_not_header count (eq_sym H)).
Qed.

(** A run either ends before the response is parsed, having written
    nothing, or reaches the report. *)
Lemma main_cases (w : env) :
  (writes_of (trace (main w)) = [] /\ exists e, outcome (main w) = inl e) \/
  (exists content data, responds w content data).
Proof.
  destruct (files w token_path) as [c | c | content] eqn:Hf.
  - left. unfold main. rewrite (read_token_open_fails w c Hf), bind_failure.
    split; [reflexivity | now eexists].
  - left. unfold main. rewrite (read_token_read_fails w c Hf), bind_failure.
    split; [reflexivity | now eexists].
  - destruct (server w (auth_request (strip content))) as [| r] eqn:Hs.
    + left. unfold main.
      rewrite (read_token_contents w content Hf), bind_value.
      rewrite (get_collections_fails w _ Hs).
      split; [reflexivity | now eexists].
    + destruct (body_json r) as [data |] eqn:Hb.
      * right. exists content, data. split; [exact Hf |]. now exists r.
      * left. unfold main.
        rewrite (read_token_contents w content Hf), bind_value.
        rewrite (get_collections_resp w _ r Hs), bind_value.
        unfold response_json. rewrite Hb.
        split; [reflexivity | now eexists].
Qed.

(** ** Failures before the report *)

(** X1.  When [requests.get] fails, the run ends with that failure: the
    token file was opened, read and closed, the one request was made,
    and nothing was written. *)
Theorem network_failure_writes_nothing (w : env) (content : text) :
  files w token_path = Contents content ->
  server w (auth_request (strip content)) = NetFails ->
  trace (main w) = prelude content /\
  outcome (main w) = inl NetworkError /\
  stdout (main w) = [].
Proof.
  intros Hf Hs. unfold main.
  rewrite (read_token_contents w content Hf), bind_value.
  rewrite (get_collections_fails w _ Hs). repeat split.
Qed.

Lemma network_failure_writes_nothing_witness :
  trace (main scenario_network_down) = prelude sample_token /\
  outcome (main scenario_network_down) = inl NetworkError /\
  stdout (main scenario_network_down) = [].
Proof.
  apply (network_failure_writes_nothing scenario_network_down sample_token).
  - reflexivity.
  - reflexivity.
Defined.

(** X2.  When the body of the response is not JSON, the run ends with
    the decoding error before the header is printed: nothing is
    written. *)
Theorem undecodable_body_writes_nothing (w : env) (content : text)
    (r : response) :
  files w token_path = Contents content ->
  server w (auth_request (strip content)) = Resp r ->
  body_json r = None ->
  trace (main w) = prelude content /\
  outcome (main w) = inl JSONDecodeError /\
  stdout (main w) = [].
Proof.
  intros Hf Hs Hb. unfold main.
  rewrite (read_token_contents w content Hf), bind_value.
  rewrite (get_collections_resp w _ r Hs), bind_value.
  unfold response_json. rewrite Hb. repeat split.
Qed.

Lemma undecodable_body_writes_nothing_witness :
  trace (main scenario_not_json) = prelude sample_token /\
  outcome (main scenario_not_json) = inl JSONDecodeError /\
  stdout (main scenario_not_json) = [].
Proof.
  apply (undecodable_body_writes_nothing scenario_not_json sample_token
           {| status_code := 502; body_json := None |}).
  - reflexivity.
  - reflexivity.
  - reflexivity.
Defined.

(** X3.  The status code of the response is never looked at: two runs
    with the same token whose responses decode alike are the same run,
    whatever the two status codes. *)
Theorem status_code_ignored (w w' : env) (content : text)
    (r r' : response) :
  files w token_path = Contents content ->
  files w' token_path = Contents content ->
  server w (auth_request (strip content)) = Resp r ->
  server w' (auth_request (strip content)) = Resp r' ->
  body_json r' = body_json r ->
  (forall v, str_of w' v = str_of w v) ->
  main w' = main w.
Proof.
  intros Hf Hf' Hs Hs' Hb Hstr. unfold main.
  rewrite (read_token_contents w content Hf), bind_value.
  rewrite (read_token_contents w' content Hf'), bind_value.
  rewrite (get_collections_resp w _ r Hs), bind_value.
  rewrite (get_collections_resp w' _ r' Hs'), bind_value.
  unfold response_json. rewrite Hb.
  destruct (body_json r) as [data |]; [| reflexivity].
  now rewrite !bind_ret_l, (list_collections_str_ext w w' data Hstr).
Qed.

Lemma status_code_ignored_witness : main scenario_b_created = main scenario_b.
Proof.
  apply (status_code_ignored scenario_b scenario_b_created sample_token
           {| status_code := 200;
              body_json := Some (envelope [superusers; posts]) |}
           {| status_code := 201;
              body_json := Some (envelope [superusers; posts]) |}).
  - reflexivity.
  - reflexivity.
  - reflexivity.
  - reflexivity.
  - reflexivity.
  - intros v. reflexivity.
Defined.

(** ** The report on any response *)

(** X4.  The report in full.  When every element of [items] is an
    object with a string [name] and, unless it is a system one, an [id]
    of any kind, and standard output can encode the line of each custom
    one, the run succeeds and writes the header, the line of each
    custom element in order, its [id] formatted by [str], and the total
    of the custom elements.  A system element needs no [id]. *)
Theorem report_on_passable_items (w : env) (content : text)
    (data : json) (cs : list json) :
  responds w content data ->
  items_of data = Some cs ->
  forallb (passable w) cs = true ->
  trace (main w) =
  prelude content
    ++ printed header_line
    :: map (fun c => printed (report_line w c)) (filter custom_record cs)
    ++ [printed (total_line (length (filter custom_record cs)))] /\
  outcome (main w) = inr tt.
Proof.
  intros Hr Hi Hcs. rewrite (main_responds w content data Hr).
  rewrite (list_collections_passable w data cs Hi Hcs). split; reflexivity.
Qed.

Lemma report_on_passable_items_witness :
  trace (main scenario_loose) =
  prelude sample_token
    ++ [printed (lit "Custom collections:");
        printed (lit "  posts: abc123");
        printed (lit "  logs: 7");
        printed (nl ++ lit "Total: 2 custom collections")] /\
  outcome (main scenario_loose) = inr tt.
Proof.
  apply (report_on_passable_items scenario_loose sample_token
           (envelope [posts; internal; logs]) [posts; internal; logs]).
  - split; [reflexivity |]. eexists. split; reflexivity.
  - reflexivity.
  - reflexivity.
Defined.





(** X7.  When [items] is there and is not an array, the header is
    written and then: an empty string or an empty object is reported as
    no collections at all; anything else, be it [null], a number, a
    boolean, or a string or an object with something in it, ends the
    run with a [TypeError] and no total. *)
Theorem items_not_an_array (w : env) (content : text) (data v : json) :
  responds w content data ->
  field (lit "items") data = Some v ->
  is_array v = false ->
  main w =
  if empty_container v
  then (prelude content
          ++ [printed header_line; printed (total_line 0)], inr tt)
  else (prelude content ++ [printed header_line], inl TypeError).
Proof.
  intros Hr Hv Ha. rewrite (main_responds w content data Hr).
  assert (Hno : forall e, outcome (iter v) = inl e ->
            list_collections w data = ([printed header_line], inl e)).
  { intros e He. unfold field in Hv. destruct data; try discriminate.
    unfold list_collections, getitem. rewrite print_header, Hv.
    destruct v; try discriminate; cbn in He; injection He as <-;
      reflexivity. }
  assert (Hbad : forall c cs, outcome (iter v) = inr (JStr c :: cs) ->
            list_collections w data = ([printed header_line], inl TypeError)).
  { intros c cs Hit.
    apply (list_collections_first_failure w data [] cs (JStr c));
      [| reflexivity | reflexivity].
    unfold items_of. now rewrite Hv, Hit. }
  assert (Hnil : outcome (iter v) = inr [] ->
            list_collections w data =
            ([printed header_line; printed (total_line 0)], inr tt)).
  { intros Hit.
    apply (list_collections_passable w data []); [| reflexivity].
    unfold items_of. now rewrite Hv, Hit. }
  destruct v as [| b | z | shown | s | elems | fields]; try discriminate Ha;
    cbn [empty_container].
  - now rewrite (Hno TypeError eq_refl).
  - now rewrite (Hno TypeError eq_refl).
  - now rewrite (Hno TypeError eq_refl).
  - now rewrite (Hno TypeError eq_refl).
  - destruct s as [| c s].
    + now rewrite (Hnil eq_refl).
    + now rewrite (Hbad [c] _ eq_refl).
  - destruct fields as [| [k x] fields].
    + now rewrite (Hnil eq_refl).
    + now rewrite (Hbad k _ eq_refl).
Qed.

Lemma items_not_an_array_witness :
  main scenario_null_items =
  (prelude sample_token ++ [printed (lit "Custom collections:")],
   inl TypeError).
Proof.
  apply (items_not_an_array scenario_null_items sample_token
           (JObj [(lit "items", JNull)]) JNull).
  - split; [reflexivity |]. eexists. split; reflexivity.
  - reflexivity.
  - reflexivity.
Defined.

(** X8.  When every element of [items] is a system record, however
    many there are, the output is that of an empty [items]. *)
Theorem only_system_records_output (w : env) (content : text)
    (data : json) (cs : list json) :
  responds w content data ->
  items_of data = Some cs ->
  forallb system_record cs = true ->
  outcome (main w) = inr tt /\
  stdout (main w) =
  lit "Custom collections:" ++ nl ++ nl
    ++ lit "Total: 0 custom collections" ++ nl.
Proof.
  intros Hr Hi Hcs. destruct (all_system_filter w cs Hcs) as [Hrep Hnone].
  destruct (stdout_main_responds w content data Hr) as [-> ->].
  rewrite (list_collections_passable w data cs Hi Hrep), Hnone.
  split; reflexivity.
Qed.

Lemma only_system_records_output_witness :
  outcome (main scenario_all_system) = inr tt /\
  stdout (main scenario_all_system) =
  lit "Custom collections:" ++ nl ++ nl
    ++ lit "Total: 0 custom collections" ++ nl.
Proof.
  apply (only_system_records_output scenario_all_system sample_token
           (envelope [superusers; internal]) [superusers; internal]).
  - split; [reflexivity |]. eexists. split; reflexivity.
  - reflexivity.
  - reflexivity.
Defined.

(** X9.  The last [print] of the script, the one that writes the blank
    line and the total, is made by the runs that succeed and by no
    other.  This is about the calls of [print]: an [id] that holds line
    feeds can make the output of a run that fails read like a total. *)
Theorem total_written_iff_success (w : env) :
  (exists count,
     In (total_line count ++ nl) (writes_of (trace (main w))))
  <-> outcome (main w) = inr tt.
Proof.
  destruct (main_cases w) as [[Hw [e He]] | [content [data Hr]]].
  - rewrite Hw, He. split; [intros [_ []] | discriminate].
  - rewrite (main_responds w content data Hr). cbn [trace outcome fst snd].
    rewrite writes_of_app. cbn [prelude writes_of app].
    apply list_collections_total.
Qed.

(** ** The order of the effects *)

(** X10.  In every run the file operations come first, then the
    request, then the writes: the token file is closed before the
    request is made and nothing is written before the response is
    there. *)
Theorem effects_in_order (w : env) :
  trace (main w) =
  file_events_of (trace (main w))
    ++ map HttpGet (gets_of (trace (main w)))
    ++ map Stdout (writes_of (trace (main w))).
Proof.
  destruct (files w token_path) as [c | c | content] eqn:Hf.
  - unfold main. now rewrite (read_token_open_fails w c Hf), bind_failure.
  - unfold main. now rewrite (read_token_read_fails w c Hf), bind_failure.
  - destruct (main_contents w content Hf) as [t [-> Ht]].
    unfold file_events_of. rewrite filter_app, gets_of_app, writes_of_app.
    fold (file_events_of t).
    rewrite (report_events_no_file t Ht), (report_events_no_get t Ht).
    cbn [prelude filter is_file_event gets_of writes_of app map].
    now rewrite <- (report_events_stdout t Ht).
Qed.

(** ** The token as sent *)

(** X11.  A token file holding whitespace only is no error: the request
    is made all the same, with an empty [Authorization] value. *)
Theorem blank_token_sent_empty (w : env) (content : text) :
  files w token_path = Contents content ->
  forallb isspace content = true ->
  gets_of (trace (main w)) =
  [{| url := collections_url; headers := [(lit "Authorization", [])] |}].
Proof.
  intros Hf Hsp. rewrite (main_gets w content Hf).
  now rewrite (strip_all_space content Hsp).
Qed.

Lemma blank_token_sent_empty_witness :
  gets_of (trace (main scenario_blank_token)) =
  [{| url := collections_url; headers := [(lit "Authorization", [])] |}].
Proof.
  apply (blank_token_sent_empty scenario_blank_token blank_token).
  - reflexivity.
  - reflexivity.
Defined.

(** X12.  When the text read from the token file neither begins nor
    ends with whitespace, [strip] changes nothing: the [Authorization]
    value handed to [requests.get] is that text, the whitespace inside
    it included. *)
Theorem clean_token_sent_verbatim (w : env) (content : text) :
  files w token_path = Contents content ->
  (forall c, hd_error content = Some c -> isspace c = false) ->
  (forall c, hd_error (rev content) = Some c -> isspace c = false) ->
  gets_of (trace (main w)) =
  [{| url := collections_url;
      headers := [(lit "Authorization", content)] |}].
Proof.
  intros Hf Hh Hl. rewrite (main_gets w content Hf).
  now rewrite (strip_clean content Hh Hl).
Qed.

Lemma clean_token_sent_verbatim_witness :
  gets_of (trace (main scenario_clean_token)) =
  [{| url := collections_url;
      headers := [(lit "Authorization", lit "secret token")] |}].
Proof.
  apply (clean_token_sent_verbatim scenario_clean_token clean_token).
  - reflexivity.
  - intros c [= <-]. reflexivity.
  - intros c [= <-]. reflexivity.
Defined.
